(** * A Redux quiz store: one question, its answers, selection and validation

    Shallow embedding of [src/index.ts] (the store: reducer, selectors and the
    two thunks [selectAnswer] and [validateQuestion]) and of the Express stub
    that answers [POST /validate-question].

    - JavaScript arrays are lists; [findIndex], [slice] and indexing keep the
      JavaScript conventions ([-1] for "not found", negative bounds counted
      from the end, [undefined] outside the array).
    - The store is a record holding the current state and the trace of what
      was dispatched and what was sent to the gateway; thunks are functions
      over it that either return or throw.
    - The [await] of the gateway in [validateQuestion] is taken as one step:
      nothing else is dispatched while the answer is pending. *)

From stdpp Require Import base numbers option list strings pretty.

Set Warnings "-register-all".

Local Open Scope Z_scope.

(** ** JavaScript array operations used by the reducer *)

Module Js.

Section Arrays.
Context {A : Type}.

(** [arr.findIndex(p)]: the index of the first element satisfying [p],
    [-1] when there is none. *)
Definition findIndex (P : A → Prop) `{!∀ x, Decision (P x)} (arr : list A) : Z :=
  match list_find P arr with
  | Some (i, _) => Z.of_nat i
  | None => -1
  end.

(** A bound of [slice], made relative to the array: a negative bound counts
    from the end, and the result is clamped to [0 .. length]. *)
Definition relative (len k : Z) : nat :=
  Z.to_nat (if k <? 0 then Z.max (len + k) 0 else Z.min k len).

(** [arr.slice(start, end)] *)
Definition slice (arr : list A) (start stop : Z) : list A :=
  let len := Z.of_nat (length arr) in
  let from := relative len start in
  let to := relative len stop in
  take (to - from)%nat (drop from arr).

(** [arr.slice(start)] *)
Definition slice_from (arr : list A) (start : Z) : list A :=
  drop (relative (Z.of_nat (length arr)) start) arr.

(** [arr[i]]: [undefined] for an index outside the array, [-1] included. *)
Definition index (arr : list A) (i : Z) : option A :=
  if i <? 0 then None else arr !! Z.to_nat i.
End Arrays.

End Js.

(** ** Domain *)

Inductive QuestionType := UCQ | MCQ.

Global Instance QuestionType_eq_dec : EqDecision QuestionType.
Proof. solve_decision. Defined.

(** An answer as the store holds it at run time. The declared type gives it
    four fields; the reducer builds its replacement as
    [{...state.answers[idx], isSelected}], which has only [isSelected] when
    [state.answers[idx]] is [undefined]. The three other fields are therefore
    optional here, [None] standing for an absent field (read as
    [undefined]). *)
Record Answer := mkAnswer {
  a_id : option string;
  a_text : option string;
  a_isCorrect : option bool;
  a_isSelected : bool;
}.

Global Instance Answer_eq_dec : EqDecision Answer.
Proof. solve_decision. Defined.

Record Question := mkQuestion {
  q_id : string;
  q_type : QuestionType;
  q_text : string;
  q_answers : list Answer;
  q_isValidated : bool;
}.

Global Instance Question_eq_dec : EqDecision Question.
Proof. solve_decision. Defined.

(** [Question | null] *)
Definition AppState := option Question.

(** An answer written in the source as an object literal with its four
    fields. *)
Definition answer_literal (id text : string) (isCorrect isSelected : bool) : Answer :=
  mkAnswer (Some id) (Some text) (Some isCorrect) isSelected.

(** ** Actions *)

(** The three actions of the application; [ReduxInit] stands for the
    actions of Redux itself (the store dispatches one when it is created),
    which fall through to the reducer's last [return state]. [answerId] is
    the [id] field of the answer given to [setAnswerSelected], absent when
    that answer has none. *)
Inductive AppAction :=
  | SetQuestion (question : Question)
  | SetAnswerSelected (answerId : option string) (isSelected : bool)
  | SetQuestionValidated (questionId : string) (isValidated : bool)
  | ReduxInit.

Global Instance AppAction_eq_dec : EqDecision AppAction.
Proof. solve_decision. Defined.

Definition setQuestion (question : Question) : AppAction :=
  SetQuestion question.

Definition setAnswerSelected (answer : Answer) (isSelected : bool) : AppAction :=
  SetAnswerSelected (a_id answer) isSelected.

Definition setQuestionValidated (question : Question) (isValidated : bool) : AppAction :=
  SetQuestionValidated (q_id question) isValidated.

(** ** Reducer *)

(** [{...o, isSelected}] where [o] is an array element or [undefined]. *)
Definition with_isSelected (o : option Answer) (isSelected : bool) : Answer :=
  match o with
  | Some a => mkAnswer (a_id a) (a_text a) (a_isCorrect a) isSelected
  | None => mkAnswer None None None isSelected
  end.

Definition with_answers (q : Question) (answers : list Answer) : Question :=
  mkQuestion (q_id q) (q_type q) (q_text q) answers (q_isValidated q).

Definition with_isValidated (q : Question) (isValidated : bool) : Question :=
  mkQuestion (q_id q) (q_type q) (q_text q) (q_answers q) isValidated.

Definition reducer (state : AppState) (action : AppAction) : AppState :=
  match action with
  | SetQuestion question => Some question
  | _ =>
    match state with
    | None => None
    | Some state =>
      match action with
      | SetQuestionValidated _ isValidated =>
          Some (with_isValidated state isValidated)
      | SetAnswerSelected answerId isSelected =>
          let idx := Js.findIndex (λ answer, a_id answer = answerId) (q_answers state) in
          Some (with_answers state
                  (Js.slice (q_answers state) 0 idx
                   ++ [with_isSelected (Js.index (q_answers state) idx) isSelected]
                   ++ Js.slice_from (q_answers state) (idx + 1)))
      | _ => Some state
      end
    end
  end.

(** ** Selectors *)

(** A computation that returns or throws [Error(message)]. *)
Inductive Outcome (A : Type) :=
  | Returned (a : A)
  | Thrown (message : string).
Arguments Returned {A} a.
Arguments Thrown {A} message.

Definition selectQuestion (state : AppState) : Outcome Question :=
  match state with
  | None => Thrown "question is null"
  | Some question => Returned question
  end.

Definition selectAnswers (state : AppState) : Outcome (list Answer) :=
  match selectQuestion state with
  | Returned question => Returned (q_answers question)
  | Thrown e => Thrown e
  end.

Definition selectSelectedAnswers (state : AppState) : Outcome (list Answer) :=
  match selectAnswers state with
  | Returned answers => Returned (filter (λ answer, a_isSelected answer = true) answers)
  | Thrown e => Thrown e
  end.

(** ** Store and thunks *)

(** The gateway's promise is fulfilled with a boolean or rejected. *)
Inductive Settled :=
  | Fulfilled (value : bool)
  | Rejected (reason : string).

Record QuestionGateway := {
  validate : list (option string) → Settled;
}.

Record Dependencies := {
  questionGateway : QuestionGateway;
}.

(** What the store and the gateway were asked to do, in order. *)
Inductive Event :=
  | Dispatched (action : AppAction)
  | GatewayCalled (answersIds : list (option string)).

Global Instance Event_eq_dec : EqDecision Event.
Proof. solve_decision. Defined.

Record Store := mkStore {
  st_state : AppState;
  st_trace : list Event;
}.

(** [createStore(reducer, ...)]: Redux computes the initial state by calling
    the reducer on [undefined] (the default parameter makes it [null]) with
    its own initial action. *)
Definition initStore : Store :=
  mkStore (reducer None ReduxInit) [].

(** A thunk receives [dispatch], [getState] and the dependencies; here it is
    a function of the dependencies and the store that returns or throws, and
    gives the store back. *)
Definition Thunk (A : Type) : Type :=
  Dependencies → Store → Outcome A * Store.

Module Thunk.

Definition ret {A} (a : A) : Thunk A :=
  λ _ store, (Returned a, store).

Definition bind {A B} (m : Thunk A) (k : A → Thunk B) : Thunk B :=
  λ deps store,
    match m deps store with
    | (Returned a, store') => k a deps store'
    | (Thrown e, store') => (Thrown e, store')
    end.

Definition throw {A} (message : string) : Thunk A :=
  λ _ store, (Thrown message, store).

(** A selector applied to [getState()]. *)
Definition select {A} (selector : AppState → Outcome A) : Thunk A :=
  λ _ store, (selector (st_state store), store).

(** [dispatch(action)] for a plain action. *)
Definition dispatch (action : AppAction) : Thunk unit :=
  λ _ store,
    (Returned tt,
     mkStore (reducer (st_state store) action)
             (st_trace store ++ [Dispatched action])).

(** [await questionGateway.validate(answersIds)] *)
Definition await_validate (answersIds : list (option string)) : Thunk bool :=
  λ deps store,
    let store' := mkStore (st_state store) (st_trace store ++ [GatewayCalled answersIds]) in
    match validate (questionGateway deps) answersIds with
    | Fulfilled value => (Returned value, store')
    | Rejected reason => (Thrown reason, store')
    end.

End Thunk.

Notation "'let*' x ':=' m 'in' k" := (Thunk.bind m (λ x, k))
  (at level 10, x name, m at level 100, k at level 200, only parsing).
Notation "m '>>' k" := (Thunk.bind m (λ _, k))
  (at level 100, k at level 200, right associativity, only parsing).

Definition selectAnswer (answer : Answer) : Thunk unit :=
  let* question := Thunk.select selectQuestion in
  let* selectedAnswers := Thunk.select selectSelectedAnswers in
  let firstSelectedAnswer := Js.index selectedAnswers 0 in
  (if bool_decide (q_type question = UCQ)
   then match firstSelectedAnswer with
        | Some first => Thunk.dispatch (setAnswerSelected first false)
        | None => Thunk.ret tt
        end
   else Thunk.ret tt) >>
  Thunk.dispatch (setAnswerSelected answer true).

(** [setQuestionValidated(question)] relies on the default
    [isValidated = true]. *)
Definition validateQuestion : Thunk unit :=
  let* question := Thunk.select selectQuestion in
  let* selectedAnswers := Thunk.select selectSelectedAnswers in
  let* success := Thunk.await_validate (a_id <$> selectedAnswers) in
  if negb success then Thunk.throw "response not ok"
  else Thunk.dispatch (setQuestionValidated question true).

(** [store.dispatch(thunk)] *)
Definition run {A} (deps : Dependencies) (thunk : Thunk A) (store : Store) : Outcome A * Store :=
  thunk deps store.

(** ** The HTTP side: the stub server and the gateway that posts to it *)

Module Http.

Inductive Method := GET | POST | PUT | DELETE.

Global Instance Method_eq_dec : EqDecision Method.
Proof. solve_decision. Defined.

Inductive Json :=
  | JNull
  | JBool (b : bool)
  | JNumber (n : Z)
  | JString (s : string)
  | JArray (items : list Json)
  | JObject (members : list (string * Json)).

(** A request as [fetch] sends it and as a handler sees it: [body] is the
    value the client serialises and, on the server, [req.body] as the
    [express.json()] middleware leaves it. *)
Record Request := mkRequest {
  method : Method;
  path : string;
  body : Json;
}.

Record Response := mkResponse {
  statusCode : Z;
  content : string;
  finished : bool;
}.

(** The response object a handler is given: status 200, nothing written. *)
Definition fresh : Response := mkResponse 200 EmptyString false.

(** [res.status(code)] *)
Definition status (code : Z) (res : Response) : Response :=
  mkResponse code (content res) (finished res).

(** [res.end()] with no data *)
Definition end_ (res : Response) : Response :=
  mkResponse (statusCode res) (content res) true.

(** [response.ok] *)
Definition ok (res : Response) : bool :=
  (200 <=? statusCode res) && (statusCode res <=? 299).

(** *** The text of a JSON value *)

Definition chr (code : nat) : string :=
  String (Ascii.ascii_of_nat code) EmptyString.

Definition hex_digit (n : nat) : string :=
  match String.get n "0123456789abcdef" with
  | Some c => String c EmptyString
  | None => EmptyString
  end.

(** A character inside a string literal: the quote, the backslash and the
    control characters are escaped. *)
Definition escape (c : Ascii.ascii) : string :=
  let code := Ascii.nat_of_ascii c in
  if (code =? 34)%nat then chr 92 +:+ chr 34
  else if (code =? 92)%nat then chr 92 +:+ chr 92
  else if (code =? 8)%nat then chr 92 +:+ "b"
  else if (code =? 9)%nat then chr 92 +:+ "t"
  else if (code =? 10)%nat then chr 92 +:+ "n"
  else if (code =? 12)%nat then chr 92 +:+ "f"
  else if (code =? 13)%nat then chr 92 +:+ "r"
  else if (code <? 32)%nat
       then chr 92 +:+ "u00" +:+ hex_digit (code / 16) +:+ hex_digit (code mod 16)
  else String c EmptyString.

Fixpoint escaped (s : string) : string :=
  match s with
  | EmptyString => EmptyString
  | String c s' => escape c +:+ escaped s'
  end.

Definition quoted (s : string) : string := chr 34 +:+ escaped s +:+ chr 34.

Fixpoint joined (parts : list string) : string :=
  match parts with
  | [] => EmptyString
  | [part] => part
  | part :: parts' => part +:+ "," +:+ joined parts'
  end.

(** [JSON.stringify(v)], a string being the bytes of its UTF-8 text and a
    number an integer written in decimal. *)
Fixpoint stringify (v : Json) : string :=
  match v with
  | JNull => "null"
  | JBool b => if b then "true" else "false"
  | JNumber n => pretty n
  | JString s => quoted s
  | JArray items => "[" +:+ joined (stringify <$> items) +:+ "]"
  | JObject members =>
      "{" +:+ joined ((λ member, quoted member.1 +:+ ":" +:+ stringify member.2)
                        <$> members) +:+ "}"
  end.

(** *** The [express.json()] middleware *)

(** A request as it reaches the server, with a body declared
    [application/json] in UTF-8 and not compressed, as the gateway sends it:
    [in_length] is the size of the body in bytes and [in_parsed] what
    [JSON.parse] gives on its text, [None] when it throws. *)
Record Incoming := mkIncoming {
  in_method : Method;
  in_path : string;
  in_length : N;
  in_parsed : option Json;
}.

(** The default [limit] of [express.json()], 100kb. *)
Definition json_limit : N := 102400.

Inductive Parsing :=
  | Parsed (body : Json)
  | Refused (code : Z).

Definition is_container (v : Json) : bool :=
  match v with
  | JArray _ | JObject _ => true
  | _ => false
  end.

(** [app.use(express.json())], with no options as in the source, after the
    documentation of Express: a body above the limit is refused with 413; an
    empty body gives [{}]; in strict mode, the default, a text that is not
    an object or an array is refused with 400, as is a text that does not
    parse; otherwise [req.body] is the parsed value. *)
Definition express_json (req : Incoming) : Parsing :=
  if (json_limit <? in_length req)%N then Refused 413
  else if (in_length req =? 0)%N then Parsed (JObject [])
  else match in_parsed req with
       | Some v => if is_container v then Parsed v else Refused 400
       | None => Refused 400
       end.

(** *** Routes *)

(** A handler returns what it printed on the console and the response. *)
Definition Handler := Request → Response → list Json * Response.

(** The handler of [app.post('/validate-question', ...)] *)
Definition validate_question : Handler :=
  λ req res, ([body req], end_ (status 201 res)).

Definition app : list (Method * string * Handler) :=
  [(POST, "/validate-question", validate_question)].

Fixpoint lower (s : string) : string :=
  match s with
  | EmptyString => EmptyString
  | String c s' =>
      let code := Ascii.nat_of_ascii c in
      String (if (65 <=? code)%nat && (code <=? 90)%nat
              then Ascii.ascii_of_nat (code + 32) else c)
             (lower s')
  end.

(** Express matches the path of a request against a route written as a
    plain path, like the one of this server, without regard to case and with
    or without one trailing slash. *)
Definition path_matches (pattern requested : string) : bool :=
  bool_decide (lower requested = lower pattern)
  || bool_decide (lower requested = lower pattern +:+ "/").

(** Express hands the request to the first route whose method and path
    match, and answers 404 itself when there is none (the page it then
    writes is left out). *)
Fixpoint route (routes : list (Method * string * Handler)) (req : Request)
    : list Json * Response :=
  match routes with
  | [] => ([], end_ (status 404 fresh))
  | (m, p, handler) :: routes' =>
      if bool_decide (m = method req) && path_matches p (path req)
      then handler req fresh
      else route routes' req
  end.

(** The application: the middleware first, for every request, then the
    routes. A request the middleware refuses is answered by Express with the
    status of the refusal (the page it then writes is left out). *)
Definition serve (req : Incoming) : list Json * Response :=
  match express_json req with
  | Refused code => ([], end_ (status code fresh))
  | Parsed body => route app (mkRequest (in_method req) (in_path req) body)
  end.

(** [JSON.stringify({ answersIds })] read back by the server: an absent id
    is written as [null]. *)
Definition answersIds_payload (answersIds : list (option string)) : Json :=
  JObject [("answersIds",
            JArray ((λ o, match o with Some s => JString s | None => JNull end)
                      <$> answersIds))].

(** [HttpQuestionGateway], over a [fetch] that yields a response or fails. *)
Definition HttpQuestionGateway (fetch : Request → option Response) : QuestionGateway :=
  {| validate answersIds :=
       match fetch (mkRequest POST "/validate-question" (answersIds_payload answersIds)) with
       | Some response => Fulfilled (ok response)
       | None => Rejected "fetch failed"
       end |}.

(** What reaches the server when [fetch] sends a request: the text of its
    body, which parses back to the value it was made from. *)
Definition sent (req : Request) : Incoming :=
  mkIncoming (method req) (path req)
             (N.of_nat (String.length (stringify (body req))))
             (Some (body req)).

(** The network when the stub server is up. *)
Definition fetch_stub (req : Request) : option Response :=
  Some (serve (sent req)).2.

End Http.

(** ** Operations of the store *)

(** What a caller can hand to [store.dispatch]: one of the three plain
    actions or one of the two thunks. *)
Inductive Op :=
  | OpSetQuestion (question : Question)
  | OpSetAnswerSelected (answer : Answer) (isSelected : bool)
  | OpSetQuestionValidated (question : Question) (isValidated : bool)
  | OpSelectAnswer (answer : Answer)
  | OpValidateQuestion.

Definition op_thunk (op : Op) : Thunk unit :=
  match op with
  | OpSetQuestion question => Thunk.dispatch (setQuestion question)
  | OpSetAnswerSelected answer isSelected => Thunk.dispatch (setAnswerSelected answer isSelected)
  | OpSetQuestionValidated question isValidated =>
      Thunk.dispatch (setQuestionValidated question isValidated)
  | OpSelectAnswer answer => selectAnswer answer
  | OpValidateQuestion => validateQuestion
  end.

(** The store after [store.dispatch(op)], whether the thunk returned or
    threw. *)
Definition step (deps : Dependencies) (store : Store) (op : Op) : Store :=
  (run deps (op_thunk op) store).2.

Definition steps (deps : Dependencies) (store : Store) (ops : list Op) : Store :=
  foldl (step deps) store ops.

(** A state is reachable when some sequence of operations, with some
    gateway, leads to it from the initial store. *)
Definition reachable (state : AppState) : Prop :=
  ∃ deps ops, st_state (steps deps initStore ops) = state.

(** ** The program of [main] *)

Definition answer1 : Answer := answer_literal "answer1" "good" true false.
Definition answer2 : Answer := answer_literal "answer2" "baad" false false.
Definition question : Question :=
  mkQuestion "question1" UCQ "How are you?" [answer1; answer2] false.

Definition main_ops : list Op :=
  [OpSetQuestion question; OpSelectAnswer answer1; OpSelectAnswer answer2; OpValidateQuestion].

Definition main_deps : Dependencies :=
  {| questionGateway := Http.HttpQuestionGateway Http.fetch_stub |}.

(** ** Notions used to state the properties *)

(** [mark v a] is [{...a, isSelected: v}]. *)
Definition mark (isSelected : bool) (a : Answer) : Answer :=
  with_isSelected (Some a) isSelected.

(** The two predicates the source passes to [filter] and [findIndex]. *)
Abbreviation selected := (λ answer : Answer, a_isSelected answer = true).
Abbreviation has_id answerId := (λ answer : Answer, a_id answer = answerId).

(** The index [findIndex] computes, when there is one. *)
Definition position (answerId : option string) (answers : list Answer) : option nat :=
  fst <$> list_find (has_id answerId) answers.

(** How many answers are selected. *)
Definition selected_count (answers : list Answer) : nat :=
  length (filter selected answers).

(** The store identifies an answer by its id (actions carry [answerId]):
    [a] is selected in [q] when [q] holds a selected answer carrying the id
    of [a]. *)
Definition is_selected (q : Question) (a : Answer) : Prop :=
  ∃ x, x ∈ q_answers q ∧ a_id x = a_id a ∧ a_isSelected x = true.

(** The answers after the first, conditional dispatch of [selectAnswer]. *)
Definition deselected (q : Question) : list Answer :=
  if bool_decide (q_type q = UCQ) then
    match list_find selected (q_answers q) with
    | Some (_, first) =>
        match position (a_id first) (q_answers q) with
        | Some k => alter (mark false) k (q_answers q)
        | None => q_answers q
        end
    | None => q_answers q
    end
  else q_answers q.

(** The action of the first, conditional dispatch of [selectAnswer], if
    any. *)
Definition deselect_actions (q : Question) : list AppAction :=
  if bool_decide (q_type q = UCQ) then
    match list_find selected (q_answers q) with
    | Some (_, first) => [setAnswerSelected first false]
    | None => []
    end
  else [].

(** A question is well formed when, if it is a UCQ, its answers carry
    pairwise distinct ids and at most one of them is selected. *)
Definition well_formed (q : Question) : Prop :=
  q_type q = UCQ →
  NoDup (a_id <$> q_answers q) ∧ (selected_count (q_answers q) ≤ 1)%nat.

(** The answer handed to an operation is one of the current question: its
    id is the id of one of the answers. *)
Definition names_answer (answer : Answer) (state : AppState) : Prop :=
  match state with
  | Some q => a_id answer ∈ a_id <$> q_answers q
  | None => True
  end.

(** The disciplined use of the store: questions are installed well formed,
    answers are selected through [selectAnswer], [setAnswerSelected] is
    dispatched directly only to deselect, and both name an answer of the
    current question. *)
Definition guarded (state : AppState) (op : Op) : Prop :=
  match op with
  | OpSetQuestion question => well_formed question
  | OpSetAnswerSelected answer isSelected =>
      isSelected = false ∧ names_answer answer state
  | OpSelectAnswer answer => names_answer answer state
  | OpSetQuestionValidated _ _ => True
  | OpValidateQuestion => True
  end.

Fixpoint guarded_ops (deps : Dependencies) (store : Store) (ops : list Op) : Prop :=
  match ops with
  | [] => True
  | op :: ops' =>
      guarded (st_state store) op ∧ guarded_ops deps (step deps store op) ops'
  end.

(** The state the store holds after [selectAnswer(b)] on a state holding
    [q]. *)
Definition after_selectAnswer (deps : Dependencies) (q : Question) (b : Answer) : AppState :=
  st_state (step deps (mkStore (Some q) []) (OpSelectAnswer b)).

Global Instance well_formed_dec q : Decision (well_formed q).
Proof. unfold well_formed. apply _. Defined.

Global Instance names_answer_dec answer state : Decision (names_answer answer state).
Proof. destruct state; simpl; apply _. Defined.

Global Instance guarded_dec state op : Decision (guarded state op).
Proof. destruct op; simpl; apply _. Defined.

Global Instance guarded_ops_dec deps store ops : Decision (guarded_ops deps store ops).
Proof. revert store. induction ops; intros store; simpl; apply _. Defined.

(** Every question the store holds is well formed. *)
Definition store_ok (store : Store) : Prop :=
  ∀ q, st_state store = Some q → well_formed q.

(** [selectAnswer(b)] replaces [a] by [b]: in the state it leaves, [b] is
    selected and [a] no longer is. *)
Definition selectAnswer_replaces (deps : Dependencies) (q : Question) (a b : Answer) : Prop :=
  ∃ q', after_selectAnswer deps q b = Some q'
        ∧ is_selected q' b ∧ ¬ is_selected q' a.

(** Dispatching [selectAnswer(a)] a second time changes nothing in the
    state. *)
Definition selectAnswer_idempotent (deps : Dependencies) (q : Question) (a : Answer) : Prop :=
  st_state (steps deps (mkStore (Some q) []) [OpSelectAnswer a; OpSelectAnswer a])
  = st_state (steps deps (mkStore (Some q) []) [OpSelectAnswer a]).

(** ** Sample questions *)

Definition answer3 : Answer := answer_literal "answer3" "so-so" false false.

(** A UCQ installed with two answers already selected. *)
Definition question_two_selected : Question :=
  mkQuestion "question2" UCQ "How are you?"
    [mark true answer1; mark true answer2; answer3] false.

(** A UCQ whose first two answers carry the same id. *)
Definition question_same_id : Question :=
  mkQuestion "question3" UCQ "How are you?"
    [answer_literal "answer1" "good" true false;
     answer_literal "answer1" "fine" true true;
     answer3] false.

Definition question_mcq : Question :=
  mkQuestion "question4" MCQ "Which ones?" [mark true answer1; answer2; answer3] false.

(** ** Notions used for the store as a whole *)

(** The lists of ids the gateway was called with, in order. *)
Definition gateway_calls (trace : list Event) : list (list (option string)) :=
  omap (λ e, match e with
             | GatewayCalled answersIds => Some answersIds
             | Dispatched _ => None
             end) trace.

(** The operation installs a question. *)
Definition installs (op : Op) : bool :=
  match op with
  | OpSetQuestion _ => true
  | _ => false
  end.

(** [q'] is still the question [q]: same id, type and text, and the answers
    of [q], selection flags aside, are the last answers of [q'] in the same
    order. *)
Definition keeps_question (q q' : Question) : Prop :=
  q_id q' = q_id q ∧ q_type q' = q_type q ∧ q_text q' = q_text q
  ∧ (mark false <$> q_answers q) `suffix_of` (mark false <$> q_answers q').

(** A network on which every [fetch] fails. *)
Definition offline_deps : Dependencies :=
  {| questionGateway := Http.HttpQuestionGateway (λ _, None) |}.

(** A server that answers every request with status 500. *)
Definition refusing_deps : Dependencies :=
  {| questionGateway :=
       Http.HttpQuestionGateway (λ _, Some (Http.mkResponse 500 EmptyString true)) |}.






(** * Properties *)

(** Solves a decidable side condition on concrete data by evaluation. *)
Ltac by_evaluation := apply (bool_decide_unpack _); vm_compute; exact I.

(** ** Array operations at the indices the reducer uses *)

Section JsFacts.
Context {A : Type}.
Implicit Types (arr : list A) (i : nat).

Lemma relative_nat arr i :
  Js.relative (Z.of_nat (length arr)) (Z.of_nat i) = (i `min` length arr)%nat.
Proof.
  unfold Js.relative. destruct (Z.ltb_spec (Z.of_nat i) 0); lia.
Qed.

Lemma slice_to_found arr i : Js.slice arr 0 (Z.of_nat i) = take i arr.
Proof.
  unfold Js.slice. rewrite relative_nat. change 0 with (Z.of_nat 0).
  rewrite relative_nat. rewrite Nat.min_0_l, drop_0, Nat.sub_0_r.
  destruct (decide (i ≤ length arr)%nat).
  - by rewrite Nat.min_l.
  - rewrite Nat.min_r by lia.
    rewrite (take_ge arr i) by lia. by rewrite take_ge by lia.
Qed.

Lemma slice_from_found arr i : Js.slice_from arr (Z.of_nat i + 1) = drop (S i) arr.
Proof.
  unfold Js.slice_from. replace (Z.of_nat i + 1) with (Z.of_nat (S i)) by lia.
  rewrite relative_nat.
  destruct (decide (S i ≤ length arr)%nat).
  - by rewrite Nat.min_l.
  - rewrite Nat.min_r by lia.
    rewrite (drop_ge arr (S i)) by lia. by rewrite drop_ge by lia.
Qed.

Lemma index_found arr i : Js.index arr (Z.of_nat i) = arr !! i.
Proof.
  unfold Js.index. destruct (Z.ltb_spec (Z.of_nat i) 0); [lia|].
  by rewrite Nat2Z.id.
Qed.

(** With [-1]: [slice(0, -1)] drops the last element, [arr[-1]] is
    [undefined], and [slice(-1 + 1)] is the whole array. *)
Lemma slice_to_missing arr : Js.slice arr 0 (-1) = take (length arr - 1) arr.
Proof.
  unfold Js.slice.
  assert (Js.relative (Z.of_nat (length arr)) 0 = 0%nat) as -> by (unfold Js.relative; simpl; lia).
  assert (Js.relative (Z.of_nat (length arr)) (-1) = (length arr - 1)%nat) as ->
    by (unfold Js.relative; simpl; lia).
  by rewrite Nat.sub_0_r.
Qed.

Lemma slice_from_missing arr : Js.slice_from arr (-1 + 1) = arr.
Proof.
  unfold Js.slice_from.
  by assert (Js.relative (Z.of_nat (length arr)) (-1 + 1) = 0%nat) as ->
    by (unfold Js.relative; simpl; lia).
Qed.

Lemma index_missing arr : Js.index arr (-1) = None.
Proof. done. Qed.

Lemma index_head arr : Js.index arr 0 = head arr.
Proof. by destruct arr. Qed.

Lemma head_filter (P : A → Prop) `{!∀ x, Decision (P x)} arr :
  head (filter P arr) = snd <$> list_find P arr.
Proof.
  induction arr as [|x arr IH]; [done|].
  rewrite filter_cons. csimpl. case_decide; [done|].
  rewrite IH. by destruct (list_find P arr) as [[]|].
Qed.
End JsFacts.

(** ** The reducer on [setAnswerSelected] *)

Implicit Types (answers : list Answer) (i j k : nat) (x y : Answer) (v w : bool).
Implicit Types (q : Question) (answerId : option string).

Lemma position_Some answerId answers i :
  position answerId answers = Some i ↔
  ∃ x, answers !! i = Some x ∧ a_id x = answerId
       ∧ ∀ j y, answers !! j = Some y → (j < i)%nat → a_id y ≠ answerId.
Proof.
  unfold position. split.
  - intros ([j x] & Hfind & ?)%fmap_Some. simplify_eq/=.
    apply list_find_Some in Hfind as (? & ? & ?). by exists x.
  - intros (x & ? & ? & ?). apply fmap_Some. exists (i, x). split; [|done].
    by apply list_find_Some.
Qed.

Lemma position_None answerId answers :
  position answerId answers = None ↔ Forall (λ x, a_id x ≠ answerId) answers.
Proof.
  unfold position. rewrite fmap_None. apply list_find_None.
Qed.

Lemma position_elem_of answers x :
  x ∈ answers → is_Some (position (a_id x) answers).
Proof.
  intros Hx. unfold position. apply fmap_is_Some.
  by apply (list_find_elem_of _ _ x).
Qed.

(** With pairwise distinct ids, an answer is found where it stands. *)
Lemma position_NoDup answers i x :
  NoDup (a_id <$> answers) → answers !! i = Some x →
  position (a_id x) answers = Some i.
Proof.
  intros Hnd Hi. apply position_Some. exists x. split_and!; [done..|].
  intros j y Hj Hlt Heq.
  assert (j = i); [|lia].
  apply (NoDup_lookup _ _ _ (a_id x) Hnd); rewrite list_lookup_fmap.
  - by rewrite Hj, <- Heq.
  - by rewrite Hi.
Qed.

(** The id names an answer: the reducer replaces the first answer carrying
    it and keeps the rest in place. *)
Lemma reducer_setAnswerSelected_found q answerId v i :
  position answerId (q_answers q) = Some i →
  reducer (Some q) (SetAnswerSelected answerId v)
  = Some (with_answers q (alter (mark v) i (q_answers q))).
Proof.
  unfold position. intros ([j x] & Hfind & ?)%fmap_Some. simplify_eq/=.
  pose proof Hfind as (Hi & _ & _)%list_find_Some.
  unfold Js.findIndex. rewrite Hfind. cbn zeta.
  rewrite slice_to_found, slice_from_found, index_found, Hi.
  do 2 f_equal.
  rewrite <- (take_drop_middle _ _ _ Hi) at 3.
  assert (length (take j (q_answers q)) = j) as Hlen.
  { apply lookup_lt_Some in Hi. rewrite length_take. lia. }
  rewrite <- Hlen at 3. rewrite <- (Nat.add_0_r (length _)).
  by rewrite alter_app_r.
Qed.

(** The id names no answer: [findIndex] gives [-1], and the new array is
    the old one without its last element, then an object holding only
    [isSelected], then the whole old array. *)
Lemma reducer_setAnswerSelected_missing q answerId v :
  position answerId (q_answers q) = None →
  reducer (Some q) (SetAnswerSelected answerId v)
  = Some (with_answers q
            (take (length (q_answers q) - 1) (q_answers q)
             ++ [mkAnswer None None None v] ++ q_answers q)).
Proof.
  unfold position. intros Hfind%fmap_None. simpl.
  unfold Js.findIndex. rewrite Hfind. cbn zeta.
  by rewrite slice_to_missing, slice_from_missing, index_missing.
Qed.

(** Marking an answer keeps its id, so it moves no index. *)
Lemma position_alter_mark answerId v i answers :
  position answerId (alter (mark v) i answers) = position answerId answers.
Proof.
  unfold position. revert i.
  induction answers as [|x answers IH]; intros [|i]; [done..| |]; csimpl.
  - by case_decide.
  - case_decide; [done|]. specialize (IH i).
    destruct (list_find _ (alter _ _ _)) as [[]|], (list_find _ answers) as [[]|];
      by simplify_eq/=.
Qed.

Lemma ids_alter_mark v i answers :
  a_id <$> alter (mark v) i answers = a_id <$> answers.
Proof.
  rewrite (list_fmap_alter a_id (mark v) id).
  - by apply list_alter_id.
  - by apply Forall_true.
Qed.

Lemma mark_same x : mark (a_isSelected x) x = x.
Proof. by destruct x. Qed.

(** ** Counting selected answers *)

Lemma selected_count_cons x answers :
  selected_count (x :: answers)
  = ((if a_isSelected x then 1 else 0) + selected_count answers)%nat.
Proof.
  unfold selected_count. rewrite filter_cons.
  destruct (a_isSelected x); by case_decide.
Qed.

Lemma selected_count_select i answers :
  (selected_count (alter (mark true) i answers) ≤ S (selected_count answers))%nat.
Proof.
  revert i. induction answers as [|x answers IH]; intros [|i];
    cbn [alter list_alter]; rewrite ?selected_count_cons; [lia|lia| |].
  - cbn. destruct (a_isSelected x); lia.
  - specialize (IH i). lia.
Qed.

Lemma selected_count_deselect_le i answers :
  (selected_count (alter (mark false) i answers) ≤ selected_count answers)%nat.
Proof.
  revert i. induction answers as [|x answers IH]; intros [|i];
    cbn [alter list_alter]; rewrite ?selected_count_cons; [lia|lia| |].
  - cbn. lia.
  - specialize (IH i). lia.
Qed.

Lemma selected_count_deselect i x answers :
  answers !! i = Some x → a_isSelected x = true →
  S (selected_count (alter (mark false) i answers)) = selected_count answers.
Proof.
  revert i. induction answers as [|y answers IH]; intros [|i] Hi Hx;
    simplify_eq/=; cbn [alter list_alter]; rewrite !selected_count_cons.
  - cbn. rewrite Hx. lia.
  - rewrite <- (IH i Hi Hx). lia.
Qed.

(** At most one selected answer: two selected entries stand at the same
    index. *)
Lemma selected_count_unique answers i j x y :
  (selected_count answers ≤ 1)%nat →
  answers !! i = Some x → a_isSelected x = true →
  answers !! j = Some y → a_isSelected y = true →
  i = j.
Proof.
  revert i j. induction answers as [|z answers IH]; intros i j Hle Hi Hx Hj Hy;
    [done|].
  rewrite selected_count_cons in Hle.
  assert (∀ k x', answers !! k = Some x' → a_isSelected x' = true →
                   (1 ≤ selected_count answers)%nat) as Hpos.
  { intros k x' Hk Hx'. rewrite <- (selected_count_deselect k x' answers Hk Hx'). lia. }
  destruct i as [|i], j as [|j]; simplify_eq/=; [done| | |].
  - rewrite Hx in Hle. specialize (Hpos _ _ Hj Hy). lia.
  - rewrite Hy in Hle. specialize (Hpos _ _ Hi Hx). lia.
  - f_equal. apply (IH i j); [|done..]. lia.
Qed.

Lemma selected_count_0 answers :
  selected_count answers = 0%nat ↔ list_find selected answers = None.
Proof.
  unfold selected_count. rewrite length_zero_iff_nil.
  rewrite list_find_None. split.
  - intros Hnil. apply Forall_forall. intros x Hx Hsel.
    by apply (filter_nil_not_elem_of _ _ x Hnil).
  - induction 1 as [|x answers Hx _ IH]; [done|].
    by rewrite filter_cons_False.
Qed.

(** ** The program of [main] against the stub server *)

Example main_final_state :
  steps main_deps initStore main_ops
  = mkStore
      (Some (mkQuestion "question1" UCQ "How are you?"
               [answer1; mark true answer2] true))
      [Dispatched (SetQuestion question);
       Dispatched (SetAnswerSelected (Some "answer1") true);
       Dispatched (SetAnswerSelected (Some "answer1") false);
       Dispatched (SetAnswerSelected (Some "answer2") true);
       GatewayCalled [Some "answer2"];
       Dispatched (SetQuestionValidated "question1" true)].
Proof. reflexivity. Qed.

(** ** The reducer on [setQuestionValidated] *)

(** C6: on a state holding a question, [setQuestionValidated] changes
    nothing but [isValidated]: the answers (every field of each, and their
    order) and the question's id, type and text are those of the state. *)
Theorem setQuestionValidated_only_isValidated q (questionId : string) v :
  ∃ q', reducer (Some q) (SetQuestionValidated questionId v) = Some q'
        ∧ q_answers q' = q_answers q
        ∧ q_id q' = q_id q ∧ q_type q' = q_type q ∧ q_text q' = q_text q.
Proof. by eexists. Qed.

(** C7: on a state holding a question, [setQuestionValidated] sets
    [isValidated] whatever [questionId] the action carries: the id is not
    compared with the question's, and the result does not depend on it. *)
Theorem setQuestionValidated_ignores_questionId q (questionId : string) v :
  (∃ q', reducer (Some q) (SetQuestionValidated questionId v) = Some q'
         ∧ q_isValidated q' = v)
  ∧ ∀ questionId' : string,
      reducer (Some q) (SetQuestionValidated questionId' v)
      = reducer (Some q) (SetQuestionValidated questionId v).
Proof. split; [by eexists|done]. Qed.

(** ** The reducer on an id that names no answer *)

(** Whatever the state, an unknown id does not leave it as it was: the
    array changes length. *)
Lemma reducer_setAnswerSelected_missing_length q answerId v q' :
  position answerId (q_answers q) = None →
  reducer (Some q) (SetAnswerSelected answerId v) = Some q' →
  length (q_answers q') = (length (q_answers q) - 1 + 1 + length (q_answers q))%nat.
Proof.
  intros Hpos. rewrite (reducer_setAnswerSelected_missing _ _ _ Hpos).
  intros [= <-]. cbn. rewrite length_app, length_take. cbn. lia.
Qed.

Lemma reducer_setAnswerSelected_missing_changes q answerId v :
  position answerId (q_answers q) = None →
  reducer (Some q) (SetAnswerSelected answerId v) ≠ Some q.
Proof.
  intros Hpos Heq.
  pose proof (reducer_setAnswerSelected_missing_length _ _ _ _ Hpos Heq). lia.
Qed.

(** C3: the reducer on [setAnswerSelected] with an id that no answer of the
    question carries. On the question of [main] and the id ["answer3"] the
    state is not returned as it was: its two answers become four, the second
    an object with no id. *)
Theorem setAnswerSelected_unknown_id_not_ignored :
  reducer (Some question) (SetAnswerSelected (Some "answer3") true)
  = Some (with_answers question
            [answer1; mkAnswer None None None true; answer1; answer2])
  ∧ reducer (Some question) (SetAnswerSelected (Some "answer3") true)
    ≠ Some question.
Proof. split; [done|]. by apply reducer_setAnswerSelected_missing_changes. Qed.

(** ** The stub server *)


Lemma post_validate_question_served (req : Http.Incoming) (payload : Http.Json) :
  Http.in_method req = Http.POST →
  Http.in_path req = "/validate-question" →
  (0 < Http.in_length req ≤ Http.json_limit)%N →
  Http.in_parsed req = Some payload →
  Http.is_container payload = true →
  Http.serve req = ([payload], Http.mkResponse 201 EmptyString true).
Proof.
  intros Hmethod Hpath [Hpos Hlimit] Hparsed Hcontainer.
  unfold Http.serve, Http.express_json.
  destruct (N.ltb_spec Http.json_limit (Http.in_length req)); [lia|].
  destruct (N.eqb_spec (Http.in_length req) 0); [lia|].
  by rewrite Hparsed, Hcontainer, Hmethod, Hpath.
Qed.



(** An empty body is read as [{}], and the route also answers when the path
    is written in another case or with a trailing slash. *)
Lemma post_validate_question_empty_body :
  Http.serve (Http.mkIncoming Http.POST "/validate-question" 0 None)
  = ([Http.JObject []], Http.mkResponse 201 EmptyString true).
Proof. done. Qed.

Lemma post_validate_question_trailing_slash :
  Http.serve (Http.mkIncoming Http.POST "/Validate-Question/" 2 (Some (Http.JObject [])))
  = ([Http.JObject []], Http.mkResponse 201 EmptyString true).
Proof. done. Qed.

(** The text the gateway posts is never empty. *)
Lemma answersIds_text_not_empty answersIds :
  (0 < N.of_nat (String.length (Http.stringify (Http.answersIds_payload answersIds))))%N.
Proof.
  destruct (Http.stringify _) eqn:Htext; [done|].
  cbn [String.length]. lia.
Qed.

(** The gateway over the stub server reports success for every list of ids
    whose text fits in the limit of [express.json()]. *)
Lemma stub_gateway_accepts answersIds :
  (N.of_nat (String.length (Http.stringify (Http.answersIds_payload answersIds)))
   ≤ Http.json_limit)%N →
  validate (questionGateway main_deps) answersIds = Fulfilled true.
Proof.
  intros Hlimit. cbn [validate questionGateway main_deps Http.HttpQuestionGateway].
  unfold Http.fetch_stub.
  rewrite (post_validate_question_served _ (Http.answersIds_payload answersIds));
    [done..| |done|done].
  split; [apply answersIds_text_not_empty|done].
Qed.

(** ** Thunks on the empty store *)

(** C9: with no question installed, [selectAnswer] and [validateQuestion]
    throw [Error('question is null')]; nothing is dispatched, the gateway is
    not called, and the state stays [null]. *)
Theorem thunks_throw_when_question_is_null deps (answer : Answer) (trace : list Event) :
  run deps (selectAnswer answer) (mkStore None trace)
  = (Thrown "question is null", mkStore None trace)
  ∧ run deps validateQuestion (mkStore None trace)
    = (Thrown "question is null", mkStore None trace).
Proof. done. Qed.

(** ** [validateQuestion] *)

(** C5: on a state holding a question, [validateQuestion] calls the gateway
    once, with the ids of the selected answers in their order. When the
    gateway answers [true] it then dispatches [setQuestionValidated] for the
    question, and the state is the question with [isValidated] true and
    everything else as it was; when it answers [false] it throws
    [Error('response not ok')] and dispatches nothing, the state being the
    one it started from. *)
Theorem validateQuestion_outcome deps q (trace : list Event) (success : bool) :
  let answersIds := a_id <$> filter selected (q_answers q) in
  validate (questionGateway deps) answersIds = Fulfilled success →
  run deps validateQuestion (mkStore (Some q) trace)
  = if success
    then (Returned tt,
          mkStore (Some (mkQuestion (q_id q) (q_type q) (q_text q) (q_answers q) true))
                  ((trace ++ [GatewayCalled answersIds])
                   ++ [Dispatched (SetQuestionValidated (q_id q) true)]))
    else (Thrown "response not ok",
          mkStore (Some q) (trace ++ [GatewayCalled answersIds])).
Proof.
  intros answersIds Hgateway.
  unfold run, validateQuestion, Thunk.bind, Thunk.select, Thunk.await_validate.
  cbn. fold answersIds. rewrite Hgateway. by destruct success.
Qed.

Lemma validateQuestion_outcome_witness :
  run main_deps validateQuestion (mkStore (Some question_two_selected) [])
  = (Returned tt,
     mkStore (Some (mkQuestion "question2" UCQ "How are you?"
                      [mark true answer1; mark true answer2; answer3] true))
             [GatewayCalled [Some "answer1"; Some "answer2"];
              Dispatched (SetQuestionValidated "question2" true)])
  ∧ run refusing_deps validateQuestion (mkStore (Some question_mcq) [])
    = (Thrown "response not ok",
       mkStore (Some question_mcq) [GatewayCalled [Some "answer1"]]).
Proof.
  split.
  - exact (validateQuestion_outcome main_deps question_two_selected [] true eq_refl).
  - exact (validateQuestion_outcome refusing_deps question_mcq [] false eq_refl).
Defined.

(** ** [selectAnswer] *)

Lemma with_answers_same q : with_answers q (q_answers q) = q.
Proof. by destruct q. Qed.

(** On a state holding a question [selectAnswer] returns, having dispatched
    [deselect_actions] and then the selection of the target, and leaves the
    state the reducer gives for the target on the answers [deselected]. *)
Lemma selectAnswer_run deps q (answer : Answer) (trace : list Event) :
  run deps (selectAnswer answer) (mkStore (Some q) trace)
  = (Returned tt,
     mkStore (reducer (Some (with_answers q (deselected q)))
                      (setAnswerSelected answer true))
             ((trace ++ (Dispatched <$> deselect_actions q))
              ++ [Dispatched (setAnswerSelected answer true)])).
Proof.
  unfold run, selectAnswer, Thunk.bind, Thunk.select, deselected, deselect_actions.
  cbn [selectQuestion selectSelectedAnswers selectAnswers st_state].
  rewrite index_head, head_filter.
  case_bool_decide; cbn [Thunk.ret];
    [|by rewrite with_answers_same, app_nil_r].
  destruct (list_find _ (q_answers q)) as [[i first]|] eqn:Hfind;
    cbn [fmap option_fmap option_map snd];
    [|by rewrite with_answers_same, app_nil_r].
  assert (is_Some (position (a_id first) (q_answers q))) as [k Hk].
  { apply position_elem_of. apply list_find_Some in Hfind as (? & _).
    by eapply list_elem_of_lookup_2. }
  rewrite Hk. unfold Thunk.dispatch, setAnswerSelected. cbn [st_state st_trace].
  by rewrite (reducer_setAnswerSelected_found _ _ _ _ Hk).
Qed.

(** When the target's id names an answer, at index [k], the state after
    [selectAnswer] holds the answers [deselected] with the one at [k]
    marked. *)
Lemma selectAnswer_state deps q (answer : Answer) (trace : list Event) k :
  position (a_id answer) (q_answers q) = Some k →
  run deps (selectAnswer answer) (mkStore (Some q) trace)
  = (Returned tt,
     mkStore (Some (with_answers q (alter (mark true) k (deselected q))))
             ((trace ++ (Dispatched <$> deselect_actions q))
              ++ [Dispatched (setAnswerSelected answer true)])).
Proof.
  intros Hk. rewrite selectAnswer_run.
  do 2 f_equal. unfold setAnswerSelected.
  rewrite (reducer_setAnswerSelected_found _ _ _ k); [done|].
  cbn [q_answers with_answers]. rewrite <- Hk.
  unfold deselected. case_bool_decide; [|done].
  destruct (list_find _ _) as [[? first]|]; [|done].
  destruct (position (a_id first) _); [|done].
  apply position_alter_mark.
Qed.




Lemma list_find_head_filter answers x :
  head (filter selected answers) = Some x →
  ∃ i, list_find selected answers = Some (i, x).
Proof.
  rewrite head_filter. intros ([i y] & Hfind & ?)%fmap_Some. simplify_eq/=. eauto.
Qed.

(** In a UCQ with pairwise distinct ids whose first selected answer is [a],
    at index [i], the first dispatch of [selectAnswer] deselects [a]. *)
Lemma deselected_UCQ q i a :
  q_type q = UCQ →
  NoDup (a_id <$> q_answers q) →
  list_find selected (q_answers q) = Some (i, a) →
  deselected q = alter (mark false) i (q_answers q)
  ∧ deselect_actions q = [setAnswerSelected a false].
Proof.
  intros Hty Hnd Hfind. unfold deselected, deselect_actions.
  rewrite Hty, bool_decide_eq_true_2, Hfind by done.
  apply list_find_Some in Hfind as (Hi & _).
  by rewrite (position_NoDup _ _ _ Hnd Hi).
Qed.

Lemma deselected_none q :
  list_find selected (q_answers q) = None →
  deselected q = q_answers q ∧ deselect_actions q = [].
Proof.
  intros Hfind. unfold deselected, deselect_actions. rewrite Hfind.
  by case_bool_decide.
Qed.

(** C1 as stated, for every state, fails on a UCQ installed with two
    selected answers: [selectAnswer] deselects the first selected answer
    only, and the second one stays selected. *)
Lemma selectAnswer_UCQ_second_selected_stays :
  let q := question_two_selected in
  let a := mark true answer2 in
  let b := answer3 in
  q_type q = UCQ ∧ a ∈ q_answers q ∧ a_isSelected a = true
  ∧ b ∈ q_answers q ∧ b ≠ a
  ∧ ¬ selectAnswer_replaces main_deps q a b.
Proof.
  split_and!; [done|by_evaluation|done|by_evaluation|done|].
  intros (q' & Hafter & _ & Hnot). vm_compute in Hafter.
  injection Hafter as <-. apply Hnot.
  exists (mark true answer2). split_and!; [by_evaluation|done..].
Qed.

(** It also fails when the first selected answer shares its id with an
    earlier answer: the reducer deselects the first answer carrying the id,
    not the selected one. *)
Lemma selectAnswer_UCQ_same_id_stays :
  let q := question_same_id in
  let a := answer_literal "answer1" "fine" true true in
  let b := answer3 in
  q_type q = UCQ ∧ head (filter selected (q_answers q)) = Some a
  ∧ b ∈ q_answers q ∧ b ≠ a
  ∧ ¬ selectAnswer_replaces main_deps q a b.
Proof.
  split_and!; [done|done|by_evaluation|done|].
  intros (q' & Hafter & _ & Hnot). vm_compute in Hafter.
  injection Hafter as <-. apply Hnot.
  eexists. split_and!; [|reflexivity..].
  by_evaluation.
Qed.

(** C1, amended: on a state holding a UCQ question whose answers carry
    pairwise distinct ids and whose first selected answer is [a],
    [selectAnswer(b)] for another answer [b] of the question returns, having
    dispatched the deselection of [a] and then the selection of [b]; in the
    state it leaves [b] is selected and [a] is not: their entries are [b]
    with [isSelected] set and [a] with [isSelected] cleared. *)
Theorem selectAnswer_UCQ_exclusive deps q (a b : Answer) (trace : list Event) :
  q_type q = UCQ →
  NoDup (a_id <$> q_answers q) →
  head (filter selected (q_answers q)) = Some a →
  b ∈ q_answers q →
  b ≠ a →
  ∃ q',
    run deps (selectAnswer b) (mkStore (Some q) trace)
    = (Returned tt,
       mkStore (Some q')
               ((trace ++ [Dispatched (setAnswerSelected a false)])
                ++ [Dispatched (setAnswerSelected b true)]))
    ∧ is_selected q' b ∧ ¬ is_selected q' a
    ∧ mark true b ∈ q_answers q' ∧ mark false a ∈ q_answers q'.
Proof.
  intros Hty Hnd [i Hfind]%list_find_head_filter [j Hj]%list_elem_of_lookup Hne.
  pose proof Hfind as (Hi & _)%list_find_Some.
  assert (i ≠ j) as Hij by (intros ->; congruence).
  destruct (deselected_UCQ _ _ _ Hty Hnd Hfind) as [Hdes Hact].
  pose proof (position_NoDup _ _ _ Hnd Hj) as Hpos.
  set (answers' := alter (mark true) j (alter (mark false) i (q_answers q))).
  assert (answers' !! j = Some (mark true b)) as Hj'.
  { unfold answers'. by rewrite list_lookup_alter_eq, list_lookup_alter_ne, Hj. }
  assert (answers' !! i = Some (mark false a)) as Hi'.
  { unfold answers'.
    by rewrite list_lookup_alter_ne, list_lookup_alter_eq, Hi by done. }
  exists (with_answers q answers'). split_and!.
  - rewrite (selectAnswer_state _ _ _ _ _ Hpos). by rewrite Hdes, Hact.
  - exists (mark true b). split_and!; [|done..]. by eapply list_elem_of_lookup_2.
  - intros (x & [n Hn]%list_elem_of_lookup & Hid & Hx). cbn in Hn.
    assert (n = i) as ->.
    { assert (NoDup (a_id <$> answers')) as Hnd'.
      { unfold answers'. by rewrite !ids_alter_mark. }
      apply (NoDup_lookup _ _ _ (a_id a) Hnd'); rewrite list_lookup_fmap.
      - by rewrite Hn, <- Hid.
      - by rewrite Hi'. }
    rewrite Hi' in Hn. by simplify_eq.
  - by eapply list_elem_of_lookup_2.
  - by eapply list_elem_of_lookup_2.
Qed.

Lemma selectAnswer_UCQ_exclusive_witness :
  ∃ q', after_selectAnswer main_deps
          (with_answers question [mark true answer1; answer2]) answer2 = Some q'
        ∧ is_selected q' answer2 ∧ ¬ is_selected q' (mark true answer1).
Proof.
  destruct (selectAnswer_UCQ_exclusive main_deps
              (with_answers question [mark true answer1; answer2])
              (mark true answer1) answer2 [])
    as (q' & Hrun & Hb & Ha & _).
  - reflexivity.
  - by_evaluation.
  - reflexivity.
  - by_evaluation.
  - by_evaluation.
  - exists q'. split_and!; [|done..].
    unfold after_selectAnswer, step, op_thunk. by rewrite Hrun.
Defined.

(** ** The UCQ invariant *)

(** C2 as stated, for every operation of the store, fails: dispatching
    [setAnswerSelected] directly on the question of [main] selects both of
    its answers. *)
Lemma reachable_UCQ_two_selected :
  let q := with_answers question [mark true answer1; mark true answer2] in
  reachable (Some q) ∧ q_type q = UCQ ∧ ¬ (selected_count (q_answers q) ≤ 1)%nat.
Proof.
  split_and!; [|done|vm_compute; lia].
  by exists main_deps,
    [OpSetQuestion question; OpSetAnswerSelected answer1 true;
     OpSetAnswerSelected answer2 true].
Qed.

Lemma position_of_id (answer : Answer) answers :
  a_id answer ∈ a_id <$> answers → is_Some (position (a_id answer) answers).
Proof.
  intros (x & Hid & Hx)%list_elem_of_fmap. rewrite Hid. by apply position_elem_of.
Qed.

Lemma well_formed_with_answers q answers :
  (q_type q = UCQ →
   NoDup (a_id <$> answers) ∧ (selected_count answers ≤ 1)%nat) →
  well_formed (with_answers q answers).
Proof. done. Qed.

(** In a well-formed UCQ nothing is selected after the first dispatch of
    [selectAnswer]. *)
Lemma deselected_count q :
  q_type q = UCQ → well_formed q → selected_count (deselected q) = 0%nat.
Proof.
  intros Hty Hwf. destruct (Hwf Hty) as [Hnd Hle].
  destruct (list_find selected (q_answers q)) as [[i a]|] eqn:Hfind.
  - destruct (deselected_UCQ _ _ _ Hty Hnd Hfind) as [-> _].
    apply list_find_Some in Hfind as (Hi & Ha & _).
    pose proof (selected_count_deselect _ _ _ Hi Ha). lia.
  - destruct (deselected_none _ Hfind) as [-> _]. by apply selected_count_0.
Qed.

Lemma deselected_ids q : a_id <$> deselected q = a_id <$> q_answers q.
Proof.
  unfold deselected. case_bool_decide; [|done].
  destruct (list_find _ _) as [[? first]|]; [|done].
  destruct (position _ _); [|done]. apply ids_alter_mark.
Qed.

Lemma selectAnswer_preserves deps q (b : Answer) (trace : list Event) :
  well_formed q →
  names_answer b (Some q) →
  store_ok (run deps (selectAnswer b) (mkStore (Some q) trace)).2.
Proof.
  intros Hwf [k Hk]%position_of_id.
  rewrite (selectAnswer_state _ _ _ _ _ Hk). intros q' [= <-].
  apply well_formed_with_answers. intros Hty. split.
  - rewrite ids_alter_mark, deselected_ids. by apply Hwf.
  - pose proof (selected_count_select k (deselected q)).
    pose proof (deselected_count _ Hty Hwf). lia.
Qed.

(** [validateQuestion] leaves the question as it was, or validated. *)
Lemma validateQuestion_state deps q (trace : list Event) :
  let state' := st_state (run deps validateQuestion (mkStore (Some q) trace)).2 in
  state' = Some q ∨ state' = Some (with_isValidated q true).
Proof.
  unfold run, validateQuestion, Thunk.bind, Thunk.select, Thunk.await_validate.
  cbn. destruct (validate _ _) as [[]|]; cbn; auto.
Qed.

Lemma step_preserves deps store op :
  store_ok store → guarded (st_state store) op → store_ok (step deps store op).
Proof.
  destruct store as [state trace]. unfold store_ok at 1. cbn [st_state].
  intros Hok Hguard. destruct op as [question|answer v|question v|answer|].
  - intros q' [= <-]. exact Hguard.
  - destruct Hguard as [-> Hname]. destruct state as [q|]; [|done].
    destruct (position_of_id _ _ Hname) as [k Hk].
    unfold step, run, op_thunk, Thunk.dispatch, setAnswerSelected. cbn [snd st_state].
    rewrite (reducer_setAnswerSelected_found _ _ _ _ Hk). intros q' [= <-].
    apply well_formed_with_answers. intros Hty.
    destruct (Hok q eq_refl Hty) as [Hnd Hle]. split.
    + by rewrite ids_alter_mark.
    + pose proof (selected_count_deselect_le k (q_answers q)). lia.
  - destruct state as [q|]; [|done]. intros q' [= <-]. exact (Hok q eq_refl).
  - destruct state as [q|]; [|done].
    apply selectAnswer_preserves; [by apply Hok|done].
  - destruct state as [q|]; [|done]. unfold step, op_thunk.
    intros q' Hq'.
    destruct (validateQuestion_state deps q trace) as [Heq|Heq];
      rewrite Heq in Hq'; injection Hq' as <-; exact (Hok q eq_refl).
Qed.

Lemma steps_preserve deps store ops :
  store_ok store → guarded_ops deps store ops → store_ok (steps deps store ops).
Proof.
  revert store. induction ops as [|op ops IH]; intros store Hok Hguard; [done|].
  destruct Hguard as [Hop Hops]. apply IH; [|done]. by apply step_preserves.
Qed.

(** C2, amended: in every state reached from the initial store by
    operations that install only well-formed questions, select through
    [selectAnswer] an answer of the current question, dispatch
    [setAnswerSelected] directly only to deselect one, and otherwise use
    [setQuestionValidated] and [validateQuestion] freely, a UCQ question has
    at most one selected answer. *)
Theorem guarded_UCQ_at_most_one_selected deps (ops : list Op) q :
  guarded_ops deps initStore ops →
  st_state (steps deps initStore ops) = Some q →
  q_type q = UCQ →
  (selected_count (q_answers q) ≤ 1)%nat.
Proof.
  intros Hguard Hq Hty.
  assert (store_ok initStore) as Hinit by (by intros ? [=]).
  by destruct (steps_preserve deps initStore ops Hinit Hguard q Hq Hty).
Qed.

Lemma guarded_UCQ_at_most_one_selected_witness :
  (selected_count
     [mark false answer1; mark true answer2] ≤ 1)%nat.
Proof.
  apply (guarded_UCQ_at_most_one_selected main_deps main_ops
           (mkQuestion "question1" UCQ "How are you?"
              [mark false answer1; mark true answer2] true)).
  - by_evaluation.
  - reflexivity.
  - reflexivity.
Defined.

(** ** Selecting the same answer twice *)

(** C10 as stated, for every state, fails on a UCQ installed with two
    selected answers: each [selectAnswer] deselects one of them. *)
Lemma selectAnswer_twice_differs :
  let q := question_two_selected in
  answer3 ∈ q_answers q ∧ ¬ selectAnswer_idempotent main_deps q answer3.
Proof. split; [by_evaluation|]. unfold selectAnswer_idempotent. by vm_compute. Qed.

Lemma deselected_position answerId q :
  position answerId (deselected q) = position answerId (q_answers q).
Proof.
  unfold deselected. case_bool_decide; [|done].
  destruct (list_find _ _) as [[? first]|]; [|done].
  destruct (position (a_id first) _); [|done]. apply position_alter_mark.
Qed.

(** In the answers left by a first [selectAnswer] on index [k], the entry
    that a second [selectAnswer] deselects is the one at [k] or is not
    selected. *)
Lemma second_deselect_harmless q k k' (first' : Answer) :
  q_type q = UCQ →
  (selected_count (q_answers q) ≤ 1)%nat →
  let answers' := alter (mark true) k (deselected q) in
  position (a_id first') answers' = Some k' →
  k' ≠ k →
  ∃ y, answers' !! k' = Some y ∧ a_isSelected y = false.
Proof.
  intros Hty Hle answers' Hk' Hne.
  pose proof Hk' as (y & Hy & Hid & _)%position_Some.
  exists y. split; [done|]. destruct (a_isSelected y) eqn:Hsel; [exfalso|done].
  unfold answers' in Hy, Hk'.
  rewrite list_lookup_alter_ne in Hy by done.
  rewrite position_alter_mark, deselected_position in Hk'.
  revert Hy. unfold deselected. rewrite bool_decide_eq_true_2 by done.
  destruct (list_find selected (q_answers q)) as [[i first]|] eqn:Hfind.
  - pose proof Hfind as (Hi & Hfirst & _)%list_find_Some.
    assert (is_Some (position (a_id first) (q_answers q))) as [k1 Hk1].
    { apply position_elem_of. by eapply list_elem_of_lookup_2. }
    rewrite Hk1, list_lookup_alter. case_decide.
    + intros ([] & _ & ?)%fmap_Some. by simplify_eq/=.
    + intros Hy.
      assert (k' = i) as -> by eauto using selected_count_unique.
      assert (y = first) as -> by congruence.
      rewrite <- Hid, Hk1 in Hk'. congruence.
  - intros Hy. apply list_find_None in Hfind.
    rewrite Forall_forall in Hfind.
    apply (Hfind y); [by eapply list_elem_of_lookup_2|done].
Qed.

(** Selecting again the answer at [k] gives back the same answers. *)
Lemma reselect_same q k :
  (q_type q = UCQ → (selected_count (q_answers q) ≤ 1)%nat) →
  is_Some (q_answers q !! k) →
  let answers' := alter (mark true) k (deselected q) in
  alter (mark true) k (deselected (with_answers q answers')) = answers'.
Proof.
  intros Hle [c Hc] answers'.
  assert (∃ c', deselected q !! k = Some c') as [c' Hc'].
  { apply lookup_lt_is_Some. rewrite <- (length_fmap a_id), deselected_ids, length_fmap.
    by eapply lookup_lt_Some. }
  assert (answers' !! k = Some (mark true c')) as Hk.
  { unfold answers'. by rewrite list_lookup_alter_eq, Hc'. }
  unfold deselected at 1. cbn [q_type q_answers with_answers].
  case_bool_decide as Hty.
  - destruct (list_find selected answers') as [[m first']|] eqn:Hfind.
    + pose proof Hfind as (Hm & _)%list_find_Some.
      assert (is_Some (position (a_id first') answers')) as [k' Hk'].
      { apply position_elem_of. by eapply list_elem_of_lookup_2. }
      rewrite Hk'. apply list_eq. intros n.
      rewrite list_lookup_alter. case_decide as Hn.
      * subst n. rewrite list_lookup_alter. case_decide; subst; by rewrite Hk.
      * rewrite list_lookup_alter. case_decide as Hn'; [|done]. subst n.
        destruct (second_deselect_harmless q k k' first' Hty (Hle Hty) Hk')
          as (y & Hy & Hsel); [done|].
        fold answers' in Hy. rewrite Hy. cbn. f_equal.
        rewrite <- Hsel. apply mark_same.
    + unfold answers'. rewrite list_alter_alter_eq. by apply list_alter_ext.
  - unfold answers'. rewrite list_alter_alter_eq. by apply list_alter_ext.
Qed.

(** The same, for any target whose id names an answer of the question. *)
Lemma selectAnswer_twice deps q (a : Answer) (trace : list Event) :
  (q_type q = UCQ → (selected_count (q_answers q) ≤ 1)%nat) →
  names_answer a (Some q) →
  st_state (steps deps (mkStore (Some q) trace) [OpSelectAnswer a; OpSelectAnswer a])
  = st_state (steps deps (mkStore (Some q) trace) [OpSelectAnswer a]).
Proof.
  intros Hle [k Hk]%position_of_id.
  pose proof Hk as (c & Hc & _)%position_Some.
  unfold steps. cbn [foldl]. unfold step at 2 3. cbn [op_thunk].
  rewrite (selectAnswer_state _ _ _ _ _ Hk). cbn [snd].
  unfold step. cbn [op_thunk].
  rewrite (selectAnswer_state _ _ _ _ k).
  - cbn [snd st_state]. f_equal.
    change (with_answers (with_answers q ?l) ?l') with (with_answers q l').
    f_equal. by apply reselect_same.
  - cbn [q_answers with_answers].
    by rewrite position_alter_mark, deselected_position.
Qed.

(** C10, amended: on a state holding an MCQ question, or a UCQ question
    with at most one selected answer, dispatching [selectAnswer(a)] twice in
    a row for an answer [a] of the question leaves the state that
    dispatching it once leaves. *)
Theorem selectAnswer_idempotent_when_at_most_one deps q (a : Answer) (trace : list Event) :
  a ∈ q_answers q →
  (q_type q = UCQ → (selected_count (q_answers q) ≤ 1)%nat) →
  st_state (steps deps (mkStore (Some q) trace) [OpSelectAnswer a; OpSelectAnswer a])
  = st_state (steps deps (mkStore (Some q) trace) [OpSelectAnswer a]).
Proof.
  intros Ha Hle. apply selectAnswer_twice; [done|].
  cbn. by apply list_elem_of_fmap_2.
Qed.

Lemma selectAnswer_idempotent_when_at_most_one_witness :
  selectAnswer_idempotent main_deps question_same_id answer3.
Proof.
  apply (selectAnswer_idempotent_when_at_most_one main_deps question_same_id answer3 []).
  - by_evaluation.
  - intros _. by_evaluation.
Defined.

(** * Further properties *)

(** ** The reducer on [setAnswerSelected], for an id the question has *)

Lemma position_of_answerId answerId answers :
  answerId ∈ a_id <$> answers → is_Some (position answerId answers).
Proof.
  intros (x & -> & Hx)%list_elem_of_fmap. by apply position_elem_of.
Qed.

Lemma position_not_elem answerId answers :
  answerId ∉ a_id <$> answers → position answerId answers = None.
Proof.
  intros Hnot. apply position_None, Forall_forall. intros x Hx Hid.
  apply Hnot. rewrite <- Hid. by apply list_elem_of_fmap_2.
Qed.

(** X1: when some answer carries the id, [setAnswerSelected] replaces the
    flag of the first such answer and nothing else: the other answers, the
    order and number of answers, the answer's own id, text and isCorrect, and
    the question's id, type, text and isValidated are kept. *)
Theorem setAnswerSelected_only_isSelected q answerId v :
  answerId ∈ a_id <$> q_answers q →
  ∃ q' k x,
    reducer (Some q) (SetAnswerSelected answerId v) = Some q'
    ∧ q_answers q !! k = Some x ∧ a_id x = answerId
    ∧ (∀ j y, q_answers q !! j = Some y → (j < k)%nat → a_id y ≠ answerId)
    ∧ q_answers q' !! k
      = Some (mkAnswer (a_id x) (a_text x) (a_isCorrect x) v)
    ∧ (∀ j, j ≠ k → q_answers q' !! j = q_answers q !! j)
    ∧ length (q_answers q') = length (q_answers q)
    ∧ q_id q' = q_id q ∧ q_type q' = q_type q ∧ q_text q' = q_text q
    ∧ q_isValidated q' = q_isValidated q.
Proof.
  intros [k Hk]%position_of_answerId.
  pose proof Hk as (x & Hx & Hid & Hfirst)%position_Some.
  exists (with_answers q (alter (mark v) k (q_answers q))), k, x.
  split_and!; try done.
  - by apply reducer_setAnswerSelected_found.
  - cbn. by rewrite list_lookup_alter_eq, Hx.
  - intros j Hj. cbn. by rewrite list_lookup_alter_ne.
  - cbn. apply length_alter.
Qed.

Lemma setAnswerSelected_only_isSelected_witness :
  ∃ q', reducer (Some question) (SetAnswerSelected (Some "answer2") true) = Some q'
        ∧ q_answers q' !! 0%nat = Some answer1
        ∧ length (q_answers q') = 2%nat.
Proof.
  destruct (setAnswerSelected_only_isSelected question (Some "answer2") true)
    as (q' & k & x & Hred & Hx & Hid & _ & _ & Hother & Hlen & _).
  - by_evaluation.
  - exists q'. split_and!; [done| |done].
    rewrite Hother; [done|]. intros <-. cbn in Hx. by simplify_eq.
Defined.

(** X2: two [setAnswerSelected] in a row for the same id of the question
    amount to the second one; in particular dispatching the same action twice
    is dispatching it once. *)
Theorem setAnswerSelected_last_wins q answerId v w :
  answerId ∈ a_id <$> q_answers q →
  reducer (reducer (Some q) (SetAnswerSelected answerId v))
          (SetAnswerSelected answerId w)
  = reducer (Some q) (SetAnswerSelected answerId w).
Proof.
  intros [k Hk]%position_of_answerId.
  rewrite !(reducer_setAnswerSelected_found q _ _ k) by done.
  rewrite (reducer_setAnswerSelected_found _ _ _ k).
  - cbn. unfold with_answers. cbn. do 2 f_equal.
    rewrite list_alter_alter_eq. by apply list_alter_ext.
  - cbn [q_answers with_answers]. by rewrite position_alter_mark.
Qed.

Lemma setAnswerSelected_last_wins_witness :
  reducer (reducer (Some question) (SetAnswerSelected (Some "answer1") true))
          (SetAnswerSelected (Some "answer1") false)
  = reducer (Some question) (SetAnswerSelected (Some "answer1") false).
Proof.
  apply (setAnswerSelected_last_wins question (Some "answer1") true false).
  by_evaluation.
Defined.

(** X3: [setAnswerSelected] for two different ids of the question can be
    dispatched in either order. *)
Theorem setAnswerSelected_commute q answerId1 answerId2 v1 v2 :
  answerId1 ∈ a_id <$> q_answers q →
  answerId2 ∈ a_id <$> q_answers q →
  answerId1 ≠ answerId2 →
  reducer (reducer (Some q) (SetAnswerSelected answerId1 v1))
          (SetAnswerSelected answerId2 v2)
  = reducer (reducer (Some q) (SetAnswerSelected answerId2 v2))
            (SetAnswerSelected answerId1 v1).
Proof.
  intros [k1 Hk1]%position_of_answerId [k2 Hk2]%position_of_answerId Hne.
  assert (k1 ≠ k2) as Hk.
  { intros ->. apply position_Some in Hk1 as (? & ? & ? & _).
    apply position_Some in Hk2 as (? & ? & ? & _). congruence. }
  rewrite (reducer_setAnswerSelected_found q _ _ k1),
          (reducer_setAnswerSelected_found q _ _ k2) by done.
  rewrite (reducer_setAnswerSelected_found _ _ _ k2),
          (reducer_setAnswerSelected_found _ _ _ k1)
    by (cbn [q_answers with_answers]; by rewrite position_alter_mark).
  cbn. unfold with_answers. cbn. do 2 f_equal.
  by apply list_alter_alter_ne.
Qed.

Lemma setAnswerSelected_commute_witness :
  reducer (reducer (Some question) (SetAnswerSelected (Some "answer1") true))
          (SetAnswerSelected (Some "answer2") true)
  = reducer (reducer (Some question) (SetAnswerSelected (Some "answer2") true))
            (SetAnswerSelected (Some "answer1") true).
Proof.
  apply (setAnswerSelected_commute question (Some "answer1") (Some "answer2") true true);
    by_evaluation.
Defined.

(** X4: [setAnswerSelected] and [setQuestionValidated] can be dispatched in
    either order, on every state and for every id, known or not. *)
Theorem setAnswerSelected_setQuestionValidated_commute
    (state : AppState) answerId v (questionId : string) w :
  reducer (reducer state (SetAnswerSelected answerId v))
          (SetQuestionValidated questionId w)
  = reducer (reducer state (SetQuestionValidated questionId w))
            (SetAnswerSelected answerId v).
Proof. by destruct state. Qed.

(** X5: when no answer carries the id, [setAnswerSelected] returns a state
    whose answers are the old ones without the last, then an object holding
    only [isSelected], then all the old ones: twice as many answers, or one
    when there was none; the state is never the one it was given. *)
Theorem setAnswerSelected_unknown_id_grows q answerId v :
  answerId ∉ a_id <$> q_answers q →
  ∃ q',
    reducer (Some q) (SetAnswerSelected answerId v) = Some q'
    ∧ q_answers q'
      = take (length (q_answers q) - 1) (q_answers q)
        ++ mkAnswer None None None v :: q_answers q
    ∧ length (q_answers q')
      = (if decide (q_answers q = []) then 1 else 2 * length (q_answers q))%nat
    ∧ q' ≠ q.
Proof.
  intros Hpos%position_not_elem. eexists. split_and!.
  - by apply reducer_setAnswerSelected_missing.
  - done.
  - cbn. rewrite length_app, length_take. cbn.
    case_decide as Hnil; [by rewrite Hnil|].
    destruct (q_answers q); [done|]. cbn. lia.
  - intros Heq.
    apply (reducer_setAnswerSelected_missing_changes q answerId v Hpos).
    rewrite reducer_setAnswerSelected_missing by done. by rewrite Heq.
Qed.

Lemma setAnswerSelected_unknown_id_grows_witness :
  ∃ q', reducer (Some question_mcq) (SetAnswerSelected (Some "answer9") false) = Some q'
        ∧ length (q_answers q') = 6%nat.
Proof.
  destruct (setAnswerSelected_unknown_id_grows question_mcq (Some "answer9") false)
    as (q' & Hred & _ & Hlen & _).
  - by_evaluation.
  - exists q'. split; [done|]. rewrite Hlen. reflexivity.
Defined.

(** ** What only [setQuestion] can do *)

Lemma gateway_calls_dispatched (trace : list Event) (action : AppAction) :
  gateway_calls (trace ++ [Dispatched action]) = gateway_calls trace.
Proof. unfold gateway_calls. rewrite omap_app. cbn. apply app_nil_r. Qed.

Lemma gateway_calls_called (trace : list Event) (answersIds : list (option string)) :
  gateway_calls (trace ++ [GatewayCalled answersIds])
  = gateway_calls trace ++ [answersIds].
Proof. unfold gateway_calls. by rewrite omap_app. Qed.

(** With no question installed, an operation that installs none leaves the
    state [null] and does not reach the gateway. *)
Lemma step_null deps (trace : list Event) op :
  installs op = false →
  st_state (step deps (mkStore None trace) op) = None
  ∧ gateway_calls (st_trace (step deps (mkStore None trace) op))
    = gateway_calls trace.
Proof.
  destruct op; intros [=]; cbn; by rewrite ?gateway_calls_dispatched.
Qed.

(** X6: as long as no question is installed, the state stays [null] and
    the gateway is never called, whatever else is dispatched: the plain
    actions are absorbed by the reducer and the thunks throw. *)
Theorem null_until_setQuestion deps (trace : list Event) (ops : list Op) :
  Forall (λ op, installs op = false) ops →
  st_state (steps deps (mkStore None trace) ops) = None
  ∧ gateway_calls (st_trace (steps deps (mkStore None trace) ops))
    = gateway_calls trace.
Proof.
  intros Hops. revert trace.
  induction Hops as [|op ops Hop _ IH]; intros trace; [done|].
  unfold steps. cbn [foldl]. fold (steps deps).
  destruct (step_null deps trace op Hop) as [Hstate Hcalls].
  destruct (step deps (mkStore None trace) op) as [state' trace'].
  cbn in Hstate, Hcalls. subst state'. rewrite <- Hcalls. apply IH.
Qed.

Lemma null_until_setQuestion_witness :
  st_state (steps main_deps initStore
              [OpSelectAnswer answer1; OpSetAnswerSelected answer1 true;
               OpSetQuestionValidated question true; OpValidateQuestion]) = None.
Proof.
  apply (null_until_setQuestion main_deps []
           [OpSelectAnswer answer1; OpSetAnswerSelected answer1 true;
            OpSetQuestionValidated question true; OpValidateQuestion]).
  by_evaluation.
Defined.

Lemma erase_alter_mark v k answers :
  mark false <$> alter (mark v) k answers = mark false <$> answers.
Proof.
  rewrite (list_fmap_alter (mark false) (mark v) id).
  - by apply list_alter_id.
  - by apply Forall_true.
Qed.


Lemma keeps_question_refl q : keeps_question q q.
Proof. by split_and!. Qed.


Lemma reducer_keeps_question q (action : AppAction) :
  (∀ question, action ≠ SetQuestion question) →
  ∃ q', reducer (Some q) action = Some q' ∧ keeps_question q q'.
Proof.
  intros Hnot. destruct action as [question|answerId v|questionId v|].
  - by destruct (Hnot question).
  - destruct (position answerId (q_answers q)) as [k|] eqn:Hpos.
    + rewrite (reducer_setAnswerSelected_found _ _ _ _ Hpos). eexists. split; [done|].
      split_and!; [done..|]. cbn [q_answers with_answers].
      by rewrite erase_alter_mark.
    + rewrite (reducer_setAnswerSelected_missing _ _ _ Hpos). eexists. split; [done|].
      split_and!; [done..|]. cbn [q_answers with_answers].
      rewrite fmap_app. apply suffix_app_r. rewrite fmap_app. by apply suffix_app_r.
  - eexists. split; [done|]. by split_and!.
  - eexists. split; [done|]. apply keeps_question_refl.
Qed.




(** ** [selectAnswer] on any question *)

(** X8: on a state holding a question, [selectAnswer] never throws and
    never calls the gateway, whatever answer it is given. It dispatches the
    selection of the target, preceded, for a UCQ with a selected answer, by
    the deselection of the first selected one, and nothing else; the state
    still holds a question, with the [isValidated] it had. *)
Theorem selectAnswer_returns deps q (b : Answer) (trace : list Event) :
  ∃ q' actions,
    run deps (selectAnswer b) (mkStore (Some q) trace)
    = (Returned tt, mkStore (Some q') (trace ++ (Dispatched <$> actions)))
    ∧ q_isValidated q' = q_isValidated q
    ∧ actions
      = match q_type q, head (filter selected (q_answers q)) with
        | UCQ, Some first => [setAnswerSelected first false; setAnswerSelected b true]
        | _, _ => [setAnswerSelected b true]
        end.
Proof.
  rewrite selectAnswer_run.
  destruct (reducer_keeps_question (with_answers q (deselected q))
              (setAnswerSelected b true)) as (q' & Hq' & _); [done|].
  exists q', (deselect_actions q ++ [setAnswerSelected b true]). split_and!.
  - by rewrite Hq', fmap_app, app_assoc.
  - revert Hq'. unfold setAnswerSelected.
    destruct (position (a_id b) (q_answers (with_answers q (deselected q))))
      as [k|] eqn:Hpos.
    + rewrite (reducer_setAnswerSelected_found _ _ _ _ Hpos). by intros [= <-].
    + rewrite (reducer_setAnswerSelected_missing _ _ _ Hpos). by intros [= <-].
  - unfold deselect_actions. rewrite head_filter.
    destruct (q_type q); [|done].
    rewrite bool_decide_eq_true_2 by done.
    by destruct (list_find _ _) as [[]|].
Qed.

Lemma selected_count_select_first k x answers :
  answers !! k = Some x →
  selected_count answers = 0%nat →
  selected_count (alter (mark true) k answers) = 1%nat.
Proof.
  intros Hk Hzero.
  pose proof (selected_count_select k answers).
  assert (alter (mark true) k answers !! k = Some (mark true x)) as Hk'
    by (by rewrite list_lookup_alter_eq, Hk).
  pose proof (selected_count_deselect _ _ _ Hk' eq_refl). lia.
Qed.

(** X9: on a well-formed UCQ, after [selectAnswer(b)] for an answer of the
    question exactly one answer is selected, and it carries the id of
    [b]. *)
Theorem selectAnswer_UCQ_exactly_one deps q (b : Answer) (trace : list Event) :
  q_type q = UCQ →
  well_formed q →
  a_id b ∈ a_id <$> q_answers q →
  ∃ q',
    st_state (run deps (selectAnswer b) (mkStore (Some q) trace)).2 = Some q'
    ∧ selected_count (q_answers q') = 1%nat
    ∧ ∀ x, x ∈ q_answers q' → a_isSelected x = true → a_id x = a_id b.
Proof.
  intros Hty Hwf [k Hk]%position_of_id.
  rewrite (selectAnswer_state _ _ _ _ _ Hk). eexists. split; [done|].
  cbn [q_answers with_answers].
  rewrite <- deselected_position in Hk.
  pose proof Hk as (c & Hc & Hid & _)%position_Some.
  pose proof (selected_count_select_first _ _ _ Hc (deselected_count _ Hty Hwf)) as Hone.
  split; [done|].
  intros x [n Hn]%list_elem_of_lookup Hx.
  assert (n = k) as ->.
  { apply (selected_count_unique (alter (mark true) k (deselected q))
             n k x (mark true c)); [lia|done|done| |done].
    by rewrite list_lookup_alter_eq, Hc. }
  rewrite list_lookup_alter_eq, Hc in Hn. by simplify_eq/=.
Qed.

Lemma selectAnswer_UCQ_exactly_one_witness :
  ∃ q', st_state (run main_deps (selectAnswer answer2)
                    (mkStore (Some (with_answers question [mark true answer1; answer2])) [])).2
        = Some q'
        ∧ selected_count (q_answers q') = 1%nat.
Proof.
  destruct (selectAnswer_UCQ_exactly_one main_deps
              (with_answers question [mark true answer1; answer2]) answer2 [])
    as (q' & Hq' & Hone & _).
  - reflexivity.
  - by_evaluation.
  - by_evaluation.
  - by exists q'.
Defined.



Lemma step_selectAnswer_state deps q (b : Answer) (trace : list Event) :
  st_state (step deps (mkStore (Some q) trace) (OpSelectAnswer b))
  = reducer (Some (with_answers q (deselected q))) (setAnswerSelected b true).
Proof. unfold step, op_thunk. by rewrite selectAnswer_run. Qed.

(** X11: [selectAnswer] does not look at [isValidated]: dispatching it
    before or after [setQuestionValidated] leaves the same state, on every
    state and for every answer. Validation does not freeze the selection. *)
Theorem selectAnswer_setQuestionValidated_commute
    deps (state : AppState) (b : Answer) (question' : Question) v (trace : list Event) :
  st_state (steps deps (mkStore state trace)
              [OpSelectAnswer b; OpSetQuestionValidated question' v])
  = st_state (steps deps (mkStore state trace)
                [OpSetQuestionValidated question' v; OpSelectAnswer b]).
Proof.
  destruct state as [q|]; [|done].
  unfold steps. cbn [foldl].
  change (step deps (mkStore (Some q) trace) (OpSetQuestionValidated question' v))
    with (mkStore (Some (with_isValidated q v))
                  (trace ++ [Dispatched (setQuestionValidated question' v)])).
  rewrite step_selectAnswer_state.
  change (st_state (step deps ?s (OpSetQuestionValidated question' v)))
    with (reducer (st_state s) (setQuestionValidated question' v)).
  rewrite step_selectAnswer_state.
  change (with_answers (with_isValidated q v) (deselected (with_isValidated q v)))
    with (with_isValidated (with_answers q (deselected q)) v).
  by generalize (with_answers q (deselected q)).
Qed.

Lemma alter_same (f : Answer → Answer) k answers :
  (∀ x, answers !! k = Some x → f x = x) → alter f k answers = answers.
Proof.
  intros Hf. rewrite (list_alter_ext f id answers answers k); [|done..].
  by apply list_alter_id.
Qed.

Lemma mark_selected x : a_isSelected x = true → mark true x = x.
Proof. intros <-. apply mark_same. Qed.

Lemma mark_unselected x : a_isSelected x = false → mark false x = x.
Proof. intros <-. apply mark_same. Qed.

(** X12: selecting again an answer that is selected changes nothing, when
    the ids are pairwise distinct and, for a UCQ, at most one answer is
    selected: [selectAnswer] is no toggle. *)
Theorem selectAnswer_selected_unchanged deps q (b : Answer) (trace : list Event) :
  NoDup (a_id <$> q_answers q) →
  (q_type q = UCQ → (selected_count (q_answers q) ≤ 1)%nat) →
  b ∈ q_answers q →
  a_isSelected b = true →
  st_state (run deps (selectAnswer b) (mkStore (Some q) trace)).2 = Some q.
Proof.
  intros Hnd Hle [j Hj]%list_elem_of_lookup Hb.
  rewrite (selectAnswer_state _ _ _ _ _ (position_NoDup _ _ _ Hnd Hj)).
  cbn [snd st_state]. f_equal.
  transitivity (with_answers q (q_answers q)); [|apply with_answers_same]. f_equal.
  destruct (decide (q_type q = UCQ)) as [Hty|Hty].
  - destruct (list_find selected (q_answers q)) as [[i a]|] eqn:Hfind.
    + destruct (deselected_UCQ _ _ _ Hty Hnd Hfind) as [-> _].
      apply list_find_Some in Hfind as (Hi & Ha & _).
      assert (i = j) as -> by eauto using selected_count_unique.
      rewrite list_alter_alter_eq. apply alter_same.
      intros x Hx. cbn. apply mark_selected. congruence.
    + destruct (deselected_none _ Hfind) as [-> _]. apply alter_same.
      intros x Hx. apply mark_selected. congruence.
  - unfold deselected. rewrite bool_decide_eq_false_2 by done. apply alter_same.
    intros x Hx. apply mark_selected. congruence.
Qed.

Lemma selectAnswer_selected_unchanged_witness :
  st_state (run main_deps (selectAnswer (mark true answer1))
              (mkStore (Some question_mcq) [])).2 = Some question_mcq.
Proof.
  apply (selectAnswer_selected_unchanged main_deps question_mcq (mark true answer1) []).
  - by_evaluation.
  - intros _. by_evaluation.
  - by_evaluation.
  - reflexivity.
Defined.

(** X13: selecting an unselected answer with [selectAnswer] and deselecting
    it with [setAnswerSelected] gives back the state, when the ids are
    pairwise distinct and, for a UCQ, no answer was selected. *)
Theorem selectAnswer_then_deselect deps q (b : Answer) (trace : list Event) :
  NoDup (a_id <$> q_answers q) →
  (q_type q = UCQ → selected_count (q_answers q) = 0%nat) →
  b ∈ q_answers q →
  a_isSelected b = false →
  st_state (steps deps (mkStore (Some q) trace)
              [OpSelectAnswer b; OpSetAnswerSelected b false]) = Some q.
Proof.
  intros Hnd Hzero [j Hj]%list_elem_of_lookup Hb.
  pose proof (position_NoDup _ _ _ Hnd Hj) as Hpos.
  assert (deselected q = q_answers q) as Hdes.
  { unfold deselected. case_bool_decide as Hty; [|done].
    apply Hzero, selected_count_0 in Hty. by rewrite Hty. }
  unfold steps. cbn [foldl]. unfold step at 2. cbn [op_thunk].
  rewrite (selectAnswer_state _ _ _ _ _ Hpos), Hdes. cbn [snd].
  unfold step, op_thunk, run, Thunk.dispatch, setAnswerSelected. cbn [snd st_state].
  rewrite (reducer_setAnswerSelected_found _ _ _ j)
    by (cbn [q_answers with_answers]; by rewrite position_alter_mark).
  f_equal. cbn [q_answers with_answers].
  transitivity (with_answers q (q_answers q)); [|apply with_answers_same].
  unfold with_answers. cbn. f_equal.
  rewrite list_alter_alter_eq. apply alter_same.
  intros x Hx. cbn. apply mark_unselected. congruence.
Qed.

Lemma selectAnswer_then_deselect_witness :
  st_state (steps main_deps (mkStore (Some question) [])
              [OpSelectAnswer answer2; OpSetAnswerSelected answer2 false])
  = Some question.
Proof.
  apply (selectAnswer_then_deselect main_deps question answer2 []).
  - by_evaluation.
  - intros _. reflexivity.
  - by_evaluation.
  - reflexivity.
Defined.

(** ** [validateQuestion] and the gateway *)

(** X14: when the gateway's promise is rejected, [validateQuestion] throws
    the rejection: it has called the gateway once with the selected ids,
    dispatches nothing, and the state is the one it started from. *)
Theorem validateQuestion_gateway_rejected deps q (trace : list Event) (reason : string) :
  validate (questionGateway deps) (a_id <$> filter selected (q_answers q))
  = Rejected reason →
  run deps validateQuestion (mkStore (Some q) trace)
  = (Thrown reason,
     mkStore (Some q)
             (trace ++ [GatewayCalled (a_id <$> filter selected (q_answers q))])).
Proof.
  intros Hgateway.
  unfold run, validateQuestion, Thunk.bind, Thunk.select, Thunk.await_validate.
  cbn. by rewrite Hgateway.
Qed.

Lemma validateQuestion_gateway_rejected_witness :
  ∃ reason,
    run offline_deps validateQuestion (mkStore (Some question_mcq) [])
    = (Thrown reason, mkStore (Some question_mcq) [GatewayCalled [Some "answer1"]]).
Proof.
  eexists.
  exact (validateQuestion_gateway_rejected offline_deps question_mcq [] _ eq_refl).
Defined.

(** X15: whatever the gateway does, [validateQuestion] on a state holding a
    question calls it exactly once, leaves a question with the same answers,
    id, type and text, and either validates it or leaves [isValidated] as it
    was: a failed validation does not reset a validated question. *)
Theorem validateQuestion_frame deps q (trace : list Event) :
  let store' := (run deps validateQuestion (mkStore (Some q) trace)).2 in
  ∃ q',
    st_state store' = Some q'
    ∧ q_answers q' = q_answers q
    ∧ q_id q' = q_id q ∧ q_type q' = q_type q ∧ q_text q' = q_text q
    ∧ (q_isValidated q' = true ∨ q_isValidated q' = q_isValidated q)
    ∧ gateway_calls (st_trace store')
      = gateway_calls trace ++ [a_id <$> filter selected (q_answers q)].
Proof.
  unfold run, validateQuestion, Thunk.bind, Thunk.select, Thunk.await_validate.
  cbn. destruct (validate _ _) as [[]|]; cbn;
    eexists; (split; [done|]); split_and!; try done; auto;
    by rewrite ?gateway_calls_dispatched, gateway_calls_called.
Qed.

(** X16: with [HttpQuestionGateway], [validateQuestion] posts the selected
    ids to [/validate-question] and goes by the status of the response: from
    200 to 299 the state becomes the question with [isValidated] true and
    everything else as it was, otherwise [Error('response not ok')] is
    thrown and the state is left as it was. *)
Theorem validateQuestion_over_http
    (fetch : Http.Request → option Http.Response) q (trace : list Event)
    (response : Http.Response) :
  let answersIds := a_id <$> filter selected (q_answers q) in
  let deps := {| questionGateway := Http.HttpQuestionGateway fetch |} in
  fetch (Http.mkRequest Http.POST "/validate-question"
           (Http.answersIds_payload answersIds)) = Some response →
  run deps validateQuestion (mkStore (Some q) trace)
  = if bool_decide (200 ≤ Http.statusCode response ≤ 299)
    then (Returned tt,
          mkStore (Some (mkQuestion (q_id q) (q_type q) (q_text q) (q_answers q) true))
                  ((trace ++ [GatewayCalled answersIds])
                   ++ [Dispatched (SetQuestionValidated (q_id q) true)]))
    else (Thrown "response not ok",
          mkStore (Some q) (trace ++ [GatewayCalled answersIds])).
Proof.
  intros answersIds deps Hfetch.
  unfold run, validateQuestion, Thunk.bind, Thunk.select, Thunk.await_validate.
  cbn. fold answersIds. rewrite Hfetch. unfold Http.ok.
  case_bool_decide as Hok.
  - destruct Hok as [Hlo%Z.leb_le Hhi%Z.leb_le]. by rewrite Hlo, Hhi.
  - destruct (Z.leb_spec 200 (Http.statusCode response)),
             (Z.leb_spec (Http.statusCode response) 299); try done; lia.
Qed.

Lemma validateQuestion_over_http_witness :
  run refusing_deps validateQuestion (mkStore (Some question_two_selected) [])
  = (Thrown "response not ok",
     mkStore (Some question_two_selected)
             [GatewayCalled [Some "answer1"; Some "answer2"]])
  ∧ run main_deps validateQuestion (mkStore (Some question_mcq) [])
    = (Returned tt,
       mkStore (Some (mkQuestion "question4" MCQ "Which ones?"
                        [mark true answer1; answer2; answer3] true))
               [GatewayCalled [Some "answer1"];
                Dispatched (SetQuestionValidated "question4" true)]).
Proof.
  split.
  - exact (validateQuestion_over_http
             (λ _, Some (Http.mkResponse 500 EmptyString true))
             question_two_selected [] (Http.mkResponse 500 EmptyString true) eq_refl).
  - exact (validateQuestion_over_http Http.fetch_stub question_mcq []
             (Http.mkResponse 201 EmptyString true) eq_refl).
Defined.

(** ** The program of [main] *)


